(** * key_words_extractor: the aggregation pipeline of [word_extractor.py]

    A shallow embedding of [WordExtractor] (normaliser, aggregator, filter),
    of the file discovery and of the report step of [main], with the
    properties of the specification stated over it.

    Conventions.
    - A Python [str] is a Rocq [string]; its characters are the code units
      the literal patterns of the program are compared against.
    - A Python [int] is a [Z].
    - [self.keyword_list] and [self.keyword_list_filtered] are dictionaries
      keyed by [str]: finite maps [gmap string KeywordEntry].
    - What the program takes from outside (the tokenizer, the scorer, the
      file contents, [str.lower]) is a [Variable] of a [Section]. *)

From Stdlib Require Import ZArith Ascii String.
From stdpp Require Import base gmap list strings sorting.

Local Open Scope Z_scope.

(** ** Python string primitives used by the program *)

Module Str.

(** [text.startswith(pre)]. *)
Fixpoint startswith (text pre : string) {struct pre} : bool :=
  match pre with
  | EmptyString => true
  | String a pre' =>
      match text with
      | EmptyString => false
      | String b text' => Ascii.eqb a b && startswith text' pre'
      end
  end.

(** [text.endswith(suf)]. *)
Definition endswith (text suf : string) : bool :=
  startswith (String.rev text) (String.rev suf).

(** [sub in text]: [sub] occurs at some position of [text]. *)
Fixpoint contains (sub text : string) : bool :=
  startswith text sub ||
  match text with
  | EmptyString => false
  | String _ text' => contains sub text'
  end.

(** [text[n:]]. *)
Fixpoint drop (n : nat) (text : string) : string :=
  match n, text with
  | O, _ => text
  | S _, EmptyString => EmptyString
  | S k, String _ text' => drop k text'
  end.

(** The scan of [text.replace(old, new)] for a non-empty [old]: left to
    right, every occurrence of [old] that starts at the current position is
    replaced by [new] and the scan resumes behind it, so the replaced
    occurrences never overlap.  [skip] counts the characters of the
    occurrence just replaced that are still to be passed over. *)
Fixpoint replace_from (old new : string) (skip : nat) (text : string) : string :=
  match text with
  | EmptyString => EmptyString
  | String c rest =>
      match skip with
      | S k => replace_from old new k rest
      | O =>
          if startswith text old
          then new +:+ replace_from old new (String.length old - 1) rest
          else String c (replace_from old new O rest)
      end
  end.

(** [text.replace("", new)] puts [new] before every character and at the
    end. *)
Fixpoint intersperse (new text : string) : string :=
  match text with
  | EmptyString => new
  | String c rest => new +:+ String c (intersperse new rest)
  end.

(** [text.replace(old, new)]. *)
Definition replace (old new text : string) : string :=
  match old with
  | EmptyString => intersperse new text
  | String _ _ => replace_from old new O text
  end.

End Str.

(** ** [WordExtractor._clean_text] *)

Definition _clean_text (text : string) : string :=
  if Str.contains "al Qaeda" text
  then Str.replace "al Qaeda" "alqaeda" text
  else text.

(** ** Data model *)

(** One value of [self.keyword_list]: the dictionary
    [{'count': ..., 'source': [...], 'sentence': [...]}].  Such a dictionary
    has three keys, so it is truthy wherever the program tests it. *)
Record KeywordEntry := {
  count : Z;
  source : list string;
  sentence : list string
}.

(** One element of the list built by [_make_sentence_list]:
    [{'sentence': ..., 'source': ...}]. *)
Record SentenceRecord := {
  row_sentence : string;
  row_source : string
}.

(** The attributes of a [WordExtractor] object.  [lang] and
    [num_of_keywords] stand for the configured [custom_kw_extractor]. *)
Record WordExtractor := {
  lang : string;
  num_of_keywords : Z;
  max_ngram_size : Z;
  keyword_limit_in_result : Z;
  keyword_list : gmap string KeywordEntry;
  keyword_list_filtered : gmap string KeywordEntry;
  blacklist : list string
}.

Definition set_keyword_list (kl : gmap string KeywordEntry) (self : WordExtractor) : WordExtractor :=
  {| lang := lang self; num_of_keywords := num_of_keywords self;
     max_ngram_size := max_ngram_size self;
     keyword_limit_in_result := keyword_limit_in_result self;
     keyword_list := kl;
     keyword_list_filtered := keyword_list_filtered self;
     blacklist := blacklist self |}.

Definition set_keyword_list_filtered (kf : gmap string KeywordEntry) (self : WordExtractor) : WordExtractor :=
  {| lang := lang self; num_of_keywords := num_of_keywords self;
     max_ngram_size := max_ngram_size self;
     keyword_limit_in_result := keyword_limit_in_result self;
     keyword_list := keyword_list self;
     keyword_list_filtered := kf;
     blacklist := blacklist self |}.

Definition set_keyword_limit_in_result (limit : Z) (self : WordExtractor) : WordExtractor :=
  {| lang := lang self; num_of_keywords := num_of_keywords self;
     max_ngram_size := max_ngram_size self;
     keyword_limit_in_result := limit;
     keyword_list := keyword_list self;
     keyword_list_filtered := keyword_list_filtered self;
     blacklist := blacklist self |}.

(** [WordExtractor.__init__]. *)
Definition __init__ (lang : string) (num_of_keywords keyword_limit_in_final_table : Z) : WordExtractor :=
  {| lang := lang; num_of_keywords := num_of_keywords;
     max_ngram_size := 1;
     keyword_limit_in_result := keyword_limit_in_final_table;
     keyword_list := ∅;
     keyword_list_filtered := ∅;
     blacklist :=
       ["year"; "years"; "day"; "time"; "make"; "made"; "easy"; "hard"; "stop"; "good"; "looked";
        "long"; "making"; "left"; "stand"; "pass"; "true"; "ago"; "longer"; "times"; "turned"; "greater";
        "and"; "thing"; "told"; "thought"; "changed"; "words"; "fact"] |}.

(** ** [WordExtractor._add_kw_to_dict] *)

(** The [if] branch: the entry found under [word] is updated in place. *)
Definition bump (src sen : string) (e : KeywordEntry) : KeywordEntry :=
  {| count := count e + 1;
     source := if bool_decide (src ∈ source e) then source e else source e ++ [src];
     sentence := sentence e ++ [sen] |}.

(** The [else] branch: a fresh entry. *)
Definition fresh (src sen : string) : KeywordEntry :=
  {| count := 1; source := [src]; sentence := [sen] |}.

Definition _add_kw_to_dict (word src sen : string) (self : WordExtractor) : WordExtractor :=
  match keyword_list self !! word with
  | Some e => set_keyword_list (<[word := bump src sen e]> (keyword_list self)) self
  | None => set_keyword_list (<[word := fresh src sen]> (keyword_list self)) self
  end.

(** ** [WordExtractor._filter_rows] *)

(** The body of the loop, for the item [(k, v)]. *)
Definition filter_step (limit : Z) (bl : list string) (k : string) (v : KeywordEntry)
    (filtered : gmap string KeywordEntry) : gmap string KeywordEntry :=
  if bool_decide (k ∈ bl) then filtered
  else if bool_decide (count v >= limit) then <[k := v]> filtered
  else filtered.

Definition _filter_rows (self : WordExtractor) : WordExtractor :=
  set_keyword_list_filtered
    (map_fold (filter_step (keyword_limit_in_result self) (blacklist self))
       (keyword_list_filtered self) (keyword_list self))
    self.

(** The entry stored by [_filter_rows] is the object that [keyword_list]
    holds; [process_file_list] calls [_filter_rows] after its last
    [_add_kw_to_dict], and [main] calls [process_file_list] once, so no update
    of an entry follows its storing and the two tables are kept as values. *)

(** ** Exceptions *)

Inductive exn :=
  | KeyError (key : string)
  | OSError (file_name : string).

Inductive result (A : Type) :=
  | Ok (a : A)
  | Raise (e : exn).
Arguments Ok {A} a.
Arguments Raise {A} e.

(** Sequencing: an exception raised by a step ends the run. *)
#[global] Instance result_bind : MBind result := λ A B k r,
  match r with
  | Ok a => k a
  | Raise e => Raise e
  end.

(** ** File discovery: [glob.glob(f'{folder}/*txt')] *)

Module Glob.

(** [fnmatch.fnmatchcase(name, pat)] for a pattern of literal characters,
    [*] (any run of characters) and [?] (any one character); names are
    compared as they are, as on a POSIX system. *)
Fixpoint fnmatch (name pat : string) {struct pat} : bool :=
  match pat with
  | EmptyString =>
      match name with EmptyString => true | String _ _ => false end
  | String c pat' =>
      if Ascii.eqb c "*" then
        (fix star (name : string) : bool :=
           fnmatch name pat' ||
           match name with
           | EmptyString => false
           | String _ name' => star name'
           end) name
      else
        match name with
        | EmptyString => false
        | String d name' =>
            (Ascii.eqb c "?" || Ascii.eqb c d) && fnmatch name' pat'
        end
  end.

(** [glob._ishidden]. *)
Definition _ishidden (name : string) : bool := Str.startswith name ".".

(** [glob._glob1]: the names of the directory that match [pattern]; a name
    with a leading dot is dropped unless the pattern has one too. *)
Definition _glob1 (names : list string) (pattern : string) : list string :=
  List.filter
    (λ name, (_ishidden pattern || negb (_ishidden name)) && fnmatch name pattern)
    names.

(** [glob.glob(f'{folder}/*txt')], where [names] is the listing of
    [folder] (empty when [folder] does not exist). *)
Definition glob (folder : string) (names : list string) : list string :=
  List.map (λ name, folder +:+ "/" +:+ name) (_glob1 names "*txt").

End Glob.

(** ** The report step of [main]: the [pandas] calls *)

Module Pandas.

(** A frame whose rows are keyword entries: the row label (the index) and
    the cells under the columns ['count'], ['source'] and ['sentence']. *)
Record DataFrame := {
  columns : list string;
  rows : list (string * KeywordEntry)
}.

(** [pd.DataFrame(d).transpose()] for a dictionary [d] of entries: one row
    per key of [d], one column per key of the inner dictionaries.  An empty
    [d] gives a frame with no rows and no columns.  The rows of the frame
    stand in the insertion order of [d], which a finite map does not keep;
    they are listed in the order of the map. *)
Definition DataFrame_transpose (d : gmap string KeywordEntry) : DataFrame :=
  {| columns := if bool_decide (d = ∅) then [] else ["count"; "source"; "sentence"];
     rows := map_to_list d |}.

(** The order of [ascending=False] on the ['count'] cells. *)
Definition count_desc (r1 r2 : string * KeywordEntry) : Prop :=
  count r2.2 <= count r1.2.

#[global] Instance count_desc_dec : RelDecision count_desc.
Proof. intros r1 r2. unfold count_desc. apply _. Defined.

(** [df.sort_values(by=['count'], ascending=False)]: a label that is not a
    column raises [KeyError]; otherwise the rows are put in the order of
    their counts (the order among equal counts is not fixed by pandas). *)
Definition sort_values_count_desc (df : DataFrame) : result DataFrame :=
  if bool_decide ("count" ∈ columns df)
  then Ok {| columns := columns df; rows := merge_sort count_desc (rows df) |}
  else Raise (KeyError "count").

(** [df.reset_index().rename({'index': 'word'}, axis=1)]: the old index
    becomes the first column, named ['word']. *)
Definition reset_index_word (df : DataFrame) : DataFrame :=
  {| columns := "word" :: columns df; rows := rows df |}.

End Pandas.

(** ** The pipeline: [process_file_list] and [main] *)

Section Pipeline.

(** [str.lower]. *)
Variable lower : string → string.

(** [yake.KeywordExtractor(lan, n, dedupLim=0.9, top).extract_keywords]:
    the ranked pairs (keyword, score) of a text. *)
Variable score : Type.
Variable extract_keywords : string → Z → Z → string → list (string * score).

(** [nltk.sent_tokenize]. *)
Variable sent_tokenize : string → list string.

(** The text of a file read as UTF-8, [None] where [open] or [read]
    raises. *)
Variable read_text : string → option string.

Definition _extract_keywords (self : WordExtractor) (text : string) : list string :=
  let text := _clean_text text in
  let keywords :=
    extract_keywords (lang self) (max_ngram_size self) (num_of_keywords self) text in
  List.map fst keywords.

Definition _get_sentences (file_name : string) : result (list string) :=
  match read_text file_name with
  | Some text => Ok (sent_tokenize text)
  | None => Raise (OSError file_name)
  end.

Fixpoint _make_sentence_list (file_list : list string) : result (list SentenceRecord) :=
  match file_list with
  | [] => Ok []
  | file_name :: file_list' =>
      sentences ← _get_sentences file_name;
      sentence_list ← _make_sentence_list file_list';
      Ok (List.map (λ sen, {| row_sentence := sen; row_source := file_name |}) sentences
          ++ sentence_list)
  end.

(** The accumulation of one keyword, as [process_file_list] performs it:
    [self._add_kw_to_dict(word.lower(), source, sentence)]. *)
Definition accumulate (term src sen : string) (self : WordExtractor) : WordExtractor :=
  _add_kw_to_dict (lower term) src sen self.

(** The body of the loop over the sentence records. *)
Definition process_row (self : WordExtractor) (row : SentenceRecord) : WordExtractor :=
  foldl (λ self word, accumulate word (row_source row) (row_sentence row) self)
    self (_extract_keywords self (row_sentence row)).

Definition process_file_list (file_list : list string) (self : WordExtractor)
    : result WordExtractor :=
  sentences ← _make_sentence_list file_list;
  Ok (_filter_rows (foldl process_row self sentences)).

(** [main], run in a [folder] whose listing is [names]; the value is the
    table handed to [to_csv]. *)
Definition main (folder : string) (names : list string) (lang : string)
    (num_of_keywords keyword_limit_in_final_table : Z) : result Pandas.DataFrame :=
  let file_list := Glob.glob folder names in
  let WE := __init__ lang num_of_keywords keyword_limit_in_final_table in
  WE ← process_file_list file_list WE;
  let df := Pandas.DataFrame_transpose (keyword_list_filtered WE) in
  df ← Pandas.sort_values_count_desc df;
  Ok (Pandas.reset_index_word df).

(** A finite sequence of accumulate calls [(term, source, sentence)]. *)
Definition accumulate_all (calls : list (string * string * string))
    (self : WordExtractor) : WordExtractor :=
  foldl (λ self call, accumulate call.1.1 call.1.2 call.2 self) self calls.

End Pipeline.

(** ** Concrete collaborators for the examples *)

(** Lowercasing of the letters [A]-[Z]; [str.lower] agrees with it on ASCII
    text. *)
Definition ascii_lower_char (c : ascii) : ascii :=
  let n := N_of_ascii c in
  if ((65 <=? n) && (n <=? 90))%N then ascii_of_N (n + 32) else c.

Fixpoint ascii_lower (s : string) : string :=
  match s with
  | EmptyString => EmptyString
  | String c s' => String (ascii_lower_char c) (ascii_lower s')
  end.

(** A scorer that returns the words of a fixed sentence, for the examples. *)
Definition toy_extract_keywords (_ : string) (_ _ : Z) (text : string) : list (string * unit) :=
  if String.eqb text "The Cloud is a cloud." then [("Cloud", ()); ("cloud", ())] else [].

Definition toy_sent_tokenize (text : string) : list string := [text].

Definition toy_read_text (file_name : string) : option string :=
  if String.eqb file_name "docs/a.txt" then Some "The Cloud is a cloud." else None.

(** A sequence of accumulate calls and the object it leaves, for the
    examples: two sentences of [a.txt] and one of [b.txt]. *)
Definition demo_calls : list (string * string * string) :=
  [("Cloud", "a.txt", "The Cloud is a cloud.");
   ("cloud", "a.txt", "The Cloud is a cloud.");
   ("Year", "a.txt", "A year of rain.");
   ("rain", "a.txt", "A year of rain.");
   ("year", "b.txt", "Next year.")].

Definition demo : WordExtractor :=
  accumulate_all ascii_lower demo_calls (__init__ "en" 3 2).

Definition demo_cloud : KeywordEntry :=
  {| count := 2; source := ["a.txt"];
     sentence := ["The Cloud is a cloud."; "The Cloud is a cloud."] |}.

Definition demo_year : KeywordEntry :=
  {| count := 2; source := ["a.txt"; "b.txt"];
     sentence := ["A year of rain."; "Next year."] |}.

Definition demo_rain : KeywordEntry :=
  {| count := 1; source := ["a.txt"]; sentence := ["A year of rain."] |}.

(** ** The run of [process_file_list], unrolled *)

Section Trace.

Variable score : Type.
Variable extract_keywords : string → Z → Z → string → list (string * score).
Variable sent_tokenize : string → list string.
Variable read_text : string → option string.

(** The sentence records [_make_sentence_list] appends for one file. *)
Definition rows_of_file (file_name : string) : list SentenceRecord :=
  match read_text file_name with
  | Some text =>
      List.map (λ sen, {| row_sentence := sen; row_source := file_name |})
        (sent_tokenize text)
  | None => []
  end.

(** The accumulate calls the two loops of [process_file_list] make for a
    list of sentence records: record after record, and for each record the
    keywords in the order [_extract_keywords] returns them. *)
Definition calls_of_rows (self : WordExtractor) (rows : list SentenceRecord)
    : list (string * string * string) :=
  flat_map
    (λ row, List.map (λ word, (word, row_source row, row_sentence row))
              (_extract_keywords score extract_keywords self (row_sentence row)))
    rows.

End Trace.

(** The calls of a sequence that go to the key [k]. *)
Definition calls_to (lower : string → string) (k : string)
    (calls : list (string * string * string)) : list (string * string * string) :=
  List.filter (λ call, String.eqb (lower call.1.1) k) calls.

(** The accumulate calls of the example run of [process_file_list] on
    [docs/a.txt], the object they leave for a threshold, and its entry. *)
Definition toy_calls : list (string * string * string) :=
  [("Cloud", "docs/a.txt", "The Cloud is a cloud.");
   ("cloud", "docs/a.txt", "The Cloud is a cloud.")].

Definition toy_run (limit : Z) : WordExtractor :=
  _filter_rows (accumulate_all ascii_lower toy_calls (__init__ "en" 3 limit)).

Definition toy_cloud : KeywordEntry :=
  {| count := 2; source := ["docs/a.txt"];
     sentence := ["The Cloud is a cloud."; "The Cloud is a cloud."] |}.

(** * Properties *)

(** ** The program on small inputs *)

Example clean_ex1 : _clean_text "the al Qaeda cell; al Qaeda" = "the alqaeda cell; alqaeda".
Proof. reflexivity. Qed.

Example clean_ex2 : _clean_text "no such name here" = "no such name here".
Proof. reflexivity. Qed.

Example replace_ex1 : Str.replace "" "-" "abc" = "-a-b-c-".
Proof. reflexivity. Qed.

Example replace_ex2 : Str.replace "aa" "b" "aaaaa" = "bba".
Proof. reflexivity. Qed.

Example glob_ex1 :
  Glob.glob "docs" ["a.txt"; "notes.md"; ".hidden.txt"; "b.txt.bak"; "c.TXT"]
  = ["docs/a.txt"].
Proof. reflexivity. Qed.

Example main_ex1 :
  Pandas.rows <$>
    (match main ascii_lower unit toy_extract_keywords toy_sent_tokenize toy_read_text
             "docs" ["a.txt"] "en" 3 2 with
     | Ok df => Some df
     | Raise _ => None
     end)
  = Some [("cloud",
           {| count := 2; source := ["docs/a.txt"];
              sentence := ["The Cloud is a cloud."; "The Cloud is a cloud."] |})].
Proof. vm_compute. reflexivity. Qed.

Example main_ex2 :
  main ascii_lower unit toy_extract_keywords toy_sent_tokenize toy_read_text
    "docs" ["a.txt"; "b.txt"] "en" 3 2
  = Raise (OSError "docs/b.txt").
Proof. vm_compute. reflexivity. Qed.

(** ** String primitives *)

Module StrFacts.
Import Str.

Lemma startswith_nil text : startswith text "" = true.
Proof. by destruct text. Qed.

Lemma startswith_cons b text a pre :
  startswith (String b text) (String a pre) = Ascii.eqb a b && startswith text pre.
Proof. reflexivity. Qed.

(** [startswith] is the prefix test. *)
Lemma startswith_spec text pre :
  startswith text pre = true ↔ ∃ v, text = pre +:+ v.
Proof.
  revert text. induction pre as [|a pre IH]; intros text.
  - rewrite startswith_nil. split; [intros _; by exists text | done].
  - destruct text as [|b text]; simpl.
    + split; [done | intros [v Hv]; discriminate].
    + rewrite andb_true_iff, Ascii.eqb_eq, IH. split.
      * intros [-> [v ->]]. by exists v.
      * intros [v Hv]. injection Hv as -> ->. eauto.
Qed.

Lemma contains_cons sub c text :
  contains sub (String c text) = startswith (String c text) sub || contains sub text.
Proof. reflexivity. Qed.

Lemma contains_nil sub : contains sub "" = startswith "" sub.
Proof. simpl. apply orb_false_r. Qed.

(** [contains] is the substring test. *)
Lemma contains_spec sub text :
  contains sub text = true ↔ ∃ u v, text = u +:+ sub +:+ v.
Proof.
  induction text as [|c text IH].
  - rewrite contains_nil, startswith_spec. split.
    + intros [v Hv]. by exists "", v.
    + intros [u [v Hv]]. destruct u; [by exists v | discriminate].
  - rewrite contains_cons, orb_true_iff, IH, startswith_spec. split.
    + intros [[v Hv] | [u [v Hv]]].
      * by exists "", v.
      * exists (String c u), v. simpl. by rewrite Hv.
    + intros [u [v Hv]]. destruct u as [|d u]; simpl in Hv.
      * left. by exists v.
      * right. injection Hv as -> ->. by exists u, v.
Qed.

Lemma drop_nil k : drop k "" = "".
Proof. by destruct k. Qed.

Lemma drop_length k text : (String.length (drop k text) ≤ String.length text)%nat.
Proof.
  revert text. induction k as [|k IH]; intros [|c text]; simpl; try lia.
  specialize (IH text). lia.
Qed.

Lemma contains_drop sub k text :
  contains sub text = false → contains sub (drop k text) = false.
Proof.
  revert text. induction k as [|k IH]; intros [|c text]; simpl drop; try done.
  rewrite contains_cons, orb_false_iff. intros [_ H]. by apply IH.
Qed.

Lemma startswith_app text p q :
  startswith text (p +:+ q)
  = startswith text p && startswith (drop (String.length p) text) q.
Proof.
  revert text. induction p as [|a p IH]; intros text.
  - by destruct text.
  - destruct text as [|b text]; [done|].
    change (String a p +:+ q) with (String a (p +:+ q)).
    change (drop (String.length (String a p)) (String b text))
      with (drop (String.length p) text).
    by rewrite !startswith_cons, IH, andb_assoc.
Qed.

(** Passing over [k] characters is dropping them. *)
Lemma replace_from_skip old new k text :
  replace_from old new k text = replace_from old new O (drop k text).
Proof.
  revert k. induction text as [|c text IH]; intros [|k]; try done.
  simpl drop. simpl replace_from at 1. apply IH.
Qed.

(** The scan, one step at a time. *)
Lemma replace_from_cons old new c text :
  replace_from old new O (String c text)
  = if startswith (String c text) old
    then new +:+ replace_from old new O (drop (String.length old - 1) text)
    else String c (replace_from old new O text).
Proof.
  change (replace_from old new O (String c text)) with
    (if startswith (String c text) old
     then new +:+ replace_from old new (String.length old - 1) text
     else String c (replace_from old new O text)).
  by rewrite (replace_from_skip _ _ (String.length old - 1)).
Qed.

(** Without an occurrence of [old] the scan copies the text. *)
Lemma replace_from_absent old new text :
  contains old text = false → replace_from old new O text = text.
Proof.
  induction text as [|c text IH]; [done|].
  rewrite contains_cons, orb_false_iff. intros [Hs Hc].
  rewrite replace_from_cons, Hs. f_equal. by apply IH.
Qed.

End StrFacts.

(** ** The normaliser *)

Module CleanFacts.
Import Str StrFacts.

Local Abbreviation rep := (replace_from "al Qaeda" "alqaeda" O).

(** One step of the scan for the name the program rewrites. *)
Lemma rep_cons c text :
  rep (String c text)
  = if startswith (String c text) "al Qaeda"
    then "alqaeda" +:+ rep (drop 7 text)
    else String c (rep text).
Proof. apply replace_from_cons. Qed.

(** The first character of the rewritten text is the first character of
    the text: the name and its replacement begin alike. *)
Lemma rep_head c w y :
  startswith (rep y) (String c w) = true →
  ∃ s, y = String c s ∧
    ((c = "a"%char ∧ startswith ("lqaeda" +:+ rep (drop 7 s)) w = true)
     ∨ (startswith y "al Qaeda" = false ∧ startswith (rep s) w = true)).
Proof.
  destruct y as [|a s]; [done|]. rewrite rep_cons.
  destruct (startswith (String a s) "al Qaeda") eqn:E.
  - rewrite startswith_cons, andb_true_iff, Ascii.eqb_eq in E. destruct E as [<- _].
    change ("alqaeda" +:+ rep (drop 7 s)) with (String "a" ("lqaeda" +:+ rep (drop 7 s))).
    rewrite startswith_cons, andb_true_iff, Ascii.eqb_eq. intros [-> H].
    exists s. auto.
  - rewrite startswith_cons, andb_true_iff, Ascii.eqb_eq. intros [-> H].
    exists s. auto.
Qed.

(** The rewritten text begins with the tail of the name only where the
    text does. *)
Lemma rep_tail y :
  startswith (rep y) "l Qaeda" = true → startswith y "l Qaeda" = true.
Proof.
  intros H.
  apply rep_head in H as (s1 & -> & [[? _] | [_ H]]); [done|].
  apply rep_head in H as (s2 & -> & [[? _] | [_ H]]); [done|].
  apply rep_head in H as (s3 & -> & [[? _] | [_ H]]); [done|].
  apply rep_head in H as (s4 & -> & [[_ H] | [_ H]]); [done|].
  apply rep_head in H as (s5 & -> & [[? _] | [_ H]]); [done|].
  apply rep_head in H as (s6 & -> & [[? _] | [_ H]]); [done|].
  apply rep_head in H as (s7 & -> & _).
  reflexivity.
Qed.

(** The rewritten text never begins with the name. *)
Lemma rep_not_head y : startswith (rep y) "al Qaeda" = false.
Proof.
  destruct (startswith (rep y) "al Qaeda") eqn:H; [|done].
  apply rep_head in H as (s & -> & [[_ H] | [Hy H]]); [done|].
  apply rep_tail in H. rewrite startswith_cons, H in Hy. done.
Qed.

(** Behind a replacement, the name can only reappear by taking the last
    character of the replacement as its first. *)
Lemma contains_after t :
  contains "al Qaeda" ("alqaeda" +:+ t)
  = startswith t "l Qaeda" || contains "al Qaeda" t.
Proof. reflexivity. Qed.

(** Unless two occurrences of the name overlap in the text, no occurrence
    is left after the rewriting. *)
Lemma rep_clean n :
  ∀ x, (String.length x ≤ n)%nat →
    contains "al Qaedal Qaeda" x = false → contains "al Qaeda" (rep x) = false.
Proof.
  induction n as [|n IH]; intros [|c s] Hlen Hx; try done.
  { simpl in Hlen. lia. }
  simpl in Hlen. rewrite contains_cons, orb_false_iff in Hx. destruct Hx as [Hx1 Hx2].
  rewrite rep_cons. destruct (startswith (String c s) "al Qaeda") eqn:E.
  - assert (Ht : contains "al Qaeda" (rep (drop 7 s)) = false).
    { apply IH; [pose proof (drop_length 7 s); lia | by apply contains_drop]. }
    assert (Hl : startswith (rep (drop 7 s)) "l Qaeda" = false).
    { destruct (startswith (rep (drop 7 s)) "l Qaeda") eqn:Hl; [|done].
      apply rep_tail in Hl.
      change "al Qaedal Qaeda" with ("al Qaeda" +:+ "l Qaeda") in Hx1.
      rewrite startswith_app, E in Hx1.
      change (drop _ (String c s)) with (drop 7 s) in Hx1.
      by rewrite Hl in Hx1. }
    by rewrite contains_after, Hl, Ht.
  - rewrite contains_cons, orb_false_iff. split.
    + pose proof (rep_not_head (String c s)) as H. by rewrite rep_cons, E in H.
    + apply IH; [lia | done].
Qed.
End CleanFacts.

(** [_clean_text] is [str.replace] with the guard folded in. *)
Lemma clean_text_is_replace x :
  _clean_text x = Str.replace "al Qaeda" "alqaeda" x.
Proof.
  unfold _clean_text. destruct (Str.contains "al Qaeda" x) eqn:E; [done|].
  symmetry. by apply StrFacts.replace_from_absent.
Qed.

(** C10: a text in which ['al Qaeda'] does not occur is returned unchanged
    by [_clean_text]; that name is the only rewrite of the normaliser. *)
Theorem clean_text_unchanged x :
  Str.contains "al Qaeda" x = false → _clean_text x = x.
Proof. intros H. unfold _clean_text. by rewrite H. Qed.

Lemma clean_text_unchanged_witness :
  Str.contains "al Qaeda" "Al qaeda and al-Qaeda" = false
  ∧ _clean_text "Al qaeda and al-Qaeda" = "Al qaeda and al-Qaeda".
Proof.
  split; [reflexivity|].
  apply (clean_text_unchanged "Al qaeda and al-Qaeda"). reflexivity.
Defined.

(** C9, as the specification states it, fails: where two occurrences of
    ['al Qaeda'] overlap, the first is rewritten, the second is left, and the
    last character of the replacement completes a new occurrence that a
    second pass rewrites. *)
Lemma clean_text_twice_differs :
  _clean_text (_clean_text "al Qaedal Qaeda") ≠ _clean_text "al Qaedal Qaeda".
Proof. vm_compute. discriminate. Qed.

(** C9, amended: on every text in which no two occurrences of ['al Qaeda']
    overlap, that is, in which ['al Qaedal Qaeda'] does not occur,
    [_clean_text] applied twice is [_clean_text] applied once. *)
Theorem clean_text_idempotent x :
  Str.contains "al Qaedal Qaeda" x = false →
  _clean_text (_clean_text x) = _clean_text x.
Proof.
  intros H.
  assert (Hclean : Str.contains "al Qaeda" (_clean_text x) = false).
  { unfold _clean_text. destruct (Str.contains "al Qaeda" x) eqn:E; [|done].
    by apply (CleanFacts.rep_clean (String.length x)). }
  unfold _clean_text at 1. by rewrite Hclean.
Qed.

Lemma clean_text_idempotent_witness :
  Str.contains "al Qaedal Qaeda" "the al Qaeda cell; al Qaeda" = false
  ∧ _clean_text (_clean_text "the al Qaeda cell; al Qaeda")
    = _clean_text "the al Qaeda cell; al Qaeda".
Proof.
  split; [reflexivity|].
  apply (clean_text_idempotent "the al Qaeda cell; al Qaeda"). reflexivity.
Defined.

(** ** The aggregator *)

Section Aggregator.

Variable lower : string → string.

Lemma keyword_list_add_kw word src sen self :
  keyword_list (_add_kw_to_dict word src sen self)
  = <[word := match keyword_list self !! word with
              | Some e => bump src sen e
              | None => fresh src sen
              end]> (keyword_list self).
Proof. unfold _add_kw_to_dict. by destruct (keyword_list self !! word). Qed.

Lemma accumulate_all_cons call calls self :
  accumulate_all lower (call :: calls) self
  = accumulate_all lower calls (accumulate lower call.1.1 call.1.2 call.2 self).
Proof. reflexivity. Qed.

(** A property of entries that fresh entries have and updates keep holds
    of every entry, whatever the calls. *)
Lemma add_kw_preserves (P : KeywordEntry → Prop) word src sen self :
  P (fresh src sen) →
  (∀ e, P e → P (bump src sen e)) →
  map_Forall (λ _, P) (keyword_list self) →
  map_Forall (λ _, P) (keyword_list (_add_kw_to_dict word src sen self)).
Proof.
  intros Hfresh Hbump Hall. rewrite keyword_list_add_kw.
  apply map_Forall_insert_2; [|done].
  destruct (keyword_list self !! word) as [e|] eqn:E; [|done].
  apply Hbump. by apply (Hall word).
Qed.

Lemma accumulate_all_preserves (P : KeywordEntry → Prop) calls self :
  (∀ src sen, P (fresh src sen)) →
  (∀ src sen e, P e → P (bump src sen e)) →
  map_Forall (λ _, P) (keyword_list self) →
  map_Forall (λ _, P) (keyword_list (accumulate_all lower calls self)).
Proof.
  intros Hfresh Hbump. revert self.
  induction calls as [|call calls IH]; intros self Hall; [done|].
  rewrite accumulate_all_cons. apply IH. unfold accumulate.
  apply add_kw_preserves; [apply Hfresh | apply Hbump | done].
Qed.

Lemma bump_count_length src sen e :
  count e = Z.of_nat (length (sentence e)) →
  count (bump src sen e) = Z.of_nat (length (sentence (bump src sen e))).
Proof. simpl. rewrite length_app. simpl. lia. Qed.

Lemma bump_source_NoDup src sen e :
  NoDup (source e) → NoDup (source (bump src sen e)).
Proof.
  intros Hnd. simpl. case_bool_decide as Hin; [done|].
  apply NoDup_app. split_and!; [done | | apply NoDup_singleton].
  intros x Hx ->%list_elem_of_singleton. done.
Qed.

(** C1: one accumulate call [(term, source, sentence)].  Where the
    lowercased term is not a key of the table, it becomes one, with
    [count = 1], [source = [source]] and [sentence = [sentence]].  Where it
    is a key, the count of its entry grows by one, the source is appended
    to the sources unless it is among them, and the sentence is appended to
    the sentences in every case.  No other key is touched. *)
Theorem accumulate_new_or_existing term src sen self :
  (keyword_list self !! lower term = None →
     keyword_list (accumulate lower term src sen self) !! lower term
     = Some {| count := 1; source := [src]; sentence := [sen] |})
  ∧ (∀ e, keyword_list self !! lower term = Some e →
       ∃ e', keyword_list (accumulate lower term src sen self) !! lower term = Some e'
         ∧ count e' = count e + 1
         ∧ (src ∈ source e → source e' = source e)
         ∧ (src ∉ source e → source e' = source e ++ [src])
         ∧ sentence e' = sentence e ++ [sen])
  ∧ (∀ k, k ≠ lower term →
       keyword_list (accumulate lower term src sen self) !! k = keyword_list self !! k).
Proof.
  unfold accumulate. rewrite keyword_list_add_kw. split_and!.
  - intros ->. by rewrite lookup_insert_eq.
  - intros e ->. exists (bump src sen e). rewrite lookup_insert_eq.
    split_and!; try done; simpl; intros Hin.
    + by rewrite bool_decide_eq_true_2.
    + by rewrite bool_decide_eq_false_2.
  - intros k Hk. by rewrite lookup_insert_ne.
Qed.

(** C2: after any finite sequence of accumulate calls that starts from the
    empty table, the count of every entry of the table is the length of its
    list of sentences. *)
Theorem count_is_length_of_sentences calls self k e :
  keyword_list self = ∅ →
  keyword_list (accumulate_all lower calls self) !! k = Some e →
  count e = Z.of_nat (length (sentence e)).
Proof.
  intros Hempty Hk.
  refine (accumulate_all_preserves
            (λ e, count e = Z.of_nat (length (sentence e))) calls self _ _ _ k e Hk).
  - done.
  - intros src sen e0. apply bump_count_length.
  - rewrite Hempty. apply map_Forall_empty.
Qed.

(** C5: after any finite sequence of accumulate calls that starts from the
    empty table, no entry lists a source twice, however often a term was
    accumulated with the same source. *)
Theorem sources_have_no_duplicates calls self k e :
  keyword_list self = ∅ →
  keyword_list (accumulate_all lower calls self) !! k = Some e →
  NoDup (source e).
Proof.
  intros Hempty Hk.
  refine (accumulate_all_preserves (λ e, NoDup (source e)) calls self _ _ _ k e Hk).
  - intros src sen. apply NoDup_singleton.
  - intros src sen e0. apply bump_source_NoDup.
  - rewrite Hempty. apply map_Forall_empty.
Qed.

(** C3: two accumulate calls whose terms differ only in letter casing, that
    is, have the same lowercase form.  The term is lowercased before the
    table is looked up, so both calls go to one entry, under the lowercase
    form: it is the only key the two calls can add, its count has grown by
    two (from zero where the term was new), both sentences are at the end
    of its sentences, and every other entry is as before. *)
Theorem accumulate_merges_casings t1 t2 src1 sen1 src2 sen2 self :
  lower t1 = lower t2 →
  accumulate lower t1 src1 sen1 self = _add_kw_to_dict (lower t1) src1 sen1 self
  ∧ dom (keyword_list (accumulate lower t2 src2 sen2 (accumulate lower t1 src1 sen1 self)))
    = {[ lower t1 ]} ∪ dom (keyword_list self)
  ∧ (∃ e, keyword_list (accumulate lower t2 src2 sen2 (accumulate lower t1 src1 sen1 self))
            !! lower t1 = Some e
       ∧ count e = from_option count 0 (keyword_list self !! lower t1) + 2
       ∧ sentence e
         = from_option sentence [] (keyword_list self !! lower t1) ++ [sen1; sen2])
  ∧ (∀ k, k ≠ lower t1 →
       keyword_list (accumulate lower t2 src2 sen2 (accumulate lower t1 src1 sen1 self)) !! k
       = keyword_list self !! k).
Proof.
  intros Heq. unfold accumulate. rewrite <- Heq, !keyword_list_add_kw.
  rewrite lookup_insert_eq. split_and!.
  - done.
  - by rewrite !dom_insert_L, (assoc_L (∪)), (idemp_L (∪)).
  - eexists. rewrite lookup_insert_eq. split; [done|].
    destruct (keyword_list self !! lower t1) as [e0|]; simpl.
    + split; [lia | by rewrite <- app_assoc].
    + done.
  - intros k Hk. by rewrite !lookup_insert_ne.
Qed.

End Aggregator.

(** ** The filter *)

(** What the loop of [_filter_rows] leaves under a key: the entry of the
    table where it passes both tests, and what was there before otherwise. *)
Lemma filter_fold_lookup limit bl (filtered m : gmap string KeywordEntry) k :
  map_fold (filter_step limit bl) filtered m !! k
  = match m !! k with
    | Some v =>
        if bool_decide (k ∈ bl) then filtered !! k
        else if bool_decide (count v >= limit) then Some v
        else filtered !! k
    | None => filtered !! k
    end.
Proof.
  induction m as [|i x m Hi Hfirst IH] using map_first_key_ind.
  - by rewrite map_fold_empty, lookup_empty.
  - rewrite map_fold_insert_first_key by done. unfold filter_step at 1.
    destruct (decide (i = k)) as [->|Hne].
    + rewrite lookup_insert_eq.
      repeat case_bool_decide; rewrite ?lookup_insert_eq; try done;
        by rewrite IH, Hi.
    + rewrite lookup_insert_ne by done.
      repeat case_bool_decide; rewrite ?lookup_insert_ne by done; apply IH.
Qed.

Lemma filter_rows_lookup self k v :
  keyword_list_filtered self = ∅ →
  keyword_list_filtered (_filter_rows self) !! k = Some v
  ↔ keyword_list self !! k = Some v
    ∧ (k ∉ blacklist self)
    ∧ (count v >= keyword_limit_in_result self).
Proof.
  intros Hempty. unfold _filter_rows. simpl.
  rewrite filter_fold_lookup, Hempty, lookup_empty.
  destruct (keyword_list self !! k) as [v'|]; [|by split; [|intros []]].
  repeat case_bool_decide; split;
    try (by intros [[= ->] [? ?]]); try done.
  by intros [= ->].
Qed.

(** C4: the filter, run on a table with an empty filtered table as
    [__init__] leaves it, keeps an entry if and only if its term is not in the
    blacklist and its count is at least the threshold.  An entry whose count
    is one below the threshold is left out; an entry whose count is the
    threshold, of a term that is not in the blacklist, is kept. *)
Theorem filter_rows_keeps_iff self k v :
  keyword_list_filtered self = ∅ →
  (keyword_list_filtered (_filter_rows self) !! k = Some v
   ↔ keyword_list self !! k = Some v
     ∧ (k ∉ blacklist self)
     ∧ (count v >= keyword_limit_in_result self))
  ∧ (keyword_list self !! k = Some v →
     count v = keyword_limit_in_result self - 1 →
     keyword_list_filtered (_filter_rows self) !! k = None)
  ∧ (keyword_list self !! k = Some v →
     k ∉ blacklist self →
     count v = keyword_limit_in_result self →
     keyword_list_filtered (_filter_rows self) !! k = Some v).
Proof.
  intros Hempty. split_and!.
  - by apply filter_rows_lookup.
  - intros Hk Hcount.
    destruct (keyword_list_filtered (_filter_rows self) !! k) as [v'|] eqn:E; [|done].
    apply filter_rows_lookup in E as (Hk' & _ & Hge); [|done].
    rewrite Hk in Hk'. injection Hk' as <-. lia.
  - intros Hk Hbl Hcount. apply filter_rows_lookup; [done|].
    split_and!; [done | done | lia].
Qed.

(** C7: for a fixed table and blacklist, the filtered table of a threshold
    [t2] is no larger than the filtered table of a threshold [t1 <= t2]. *)
Theorem filter_rows_size_antitone self t1 t2 :
  keyword_list_filtered self = ∅ →
  t1 <= t2 →
  (size (keyword_list_filtered (_filter_rows (set_keyword_limit_in_result t2 self)))
   ≤ size (keyword_list_filtered (_filter_rows (set_keyword_limit_in_result t1 self))))%nat.
Proof.
  intros Hempty Hle. apply map_subseteq_size, map_subseteq_spec. intros k v.
  rewrite !filter_rows_lookup by done. simpl. intros (? & ? & ?).
  split_and!; [done | done | lia].
Qed.

Example demo_table :
  keyword_list demo = {[ "cloud" := demo_cloud; "year" := demo_year; "rain" := demo_rain ]}.
Proof. vm_compute. reflexivity. Qed.

Example demo_filtered :
  keyword_list_filtered (_filter_rows demo) = {[ "cloud" := demo_cloud ]}.
Proof. vm_compute. reflexivity. Qed.

(** ** The theorems on the example run *)

Lemma accumulate_new_or_existing_witness :
  keyword_list (accumulate ascii_lower "Cloud" "a.txt" "one" (__init__ "en" 3 3)) !! "cloud"
  = Some {| count := 1; source := ["a.txt"]; sentence := ["one"] |}
  ∧ ∃ e', keyword_list demo !! "cloud" = Some demo_cloud
      ∧ keyword_list (accumulate ascii_lower "CLOUD" "a.txt" "three" demo) !! "cloud" = Some e'
      ∧ count e' = 3
      ∧ source e' = ["a.txt"]
      ∧ sentence e' = ["The Cloud is a cloud."; "The Cloud is a cloud."; "three"].
Proof.
  split.
  - apply (proj1 (accumulate_new_or_existing ascii_lower "Cloud" "a.txt" "one"
                    (__init__ "en" 3 3))).
    reflexivity.
  - assert (Hdemo : keyword_list demo !! ascii_lower "CLOUD" = Some demo_cloud)
      by (vm_compute; reflexivity).
    destruct (proj1 (proj2 (accumulate_new_or_existing ascii_lower "CLOUD" "a.txt" "three" demo))
                demo_cloud Hdemo) as (e' & Hlook & Hcount & Hin & _ & Hsen).
    exists e'. split_and!; [exact Hdemo | exact Hlook | exact Hcount | | exact Hsen].
    apply Hin. apply list_elem_of_here.
Defined.

Lemma count_is_length_of_sentences_witness :
  keyword_list (__init__ "en" 3 2) = ∅
  ∧ keyword_list (accumulate_all ascii_lower demo_calls (__init__ "en" 3 2)) !! "year"
    = Some demo_year
  ∧ count demo_year = Z.of_nat (length (sentence demo_year)).
Proof.
  assert (Hyear : keyword_list (accumulate_all ascii_lower demo_calls (__init__ "en" 3 2))
                    !! "year" = Some demo_year) by (vm_compute; reflexivity).
  split_and!; [reflexivity | exact Hyear |].
  apply (count_is_length_of_sentences ascii_lower demo_calls (__init__ "en" 3 2) "year");
    [reflexivity | exact Hyear].
Defined.

Lemma sources_have_no_duplicates_witness :
  keyword_list (__init__ "en" 3 2) = ∅
  ∧ keyword_list (accumulate_all ascii_lower demo_calls (__init__ "en" 3 2)) !! "cloud"
    = Some demo_cloud
  ∧ NoDup (source demo_cloud).
Proof.
  assert (Hcloud : keyword_list (accumulate_all ascii_lower demo_calls (__init__ "en" 3 2))
                     !! "cloud" = Some demo_cloud) by (vm_compute; reflexivity).
  split_and!; [reflexivity | exact Hcloud |].
  apply (sources_have_no_duplicates ascii_lower demo_calls (__init__ "en" 3 2) "cloud");
    [reflexivity | exact Hcloud].
Defined.

Lemma accumulate_merges_casings_witness :
  ascii_lower "Cloud" = ascii_lower "cloud"
  ∧ ∃ e,
      keyword_list (accumulate ascii_lower "cloud" "b.txt" "two"
                      (accumulate ascii_lower "Cloud" "a.txt" "one" (__init__ "en" 3 3)))
        !! "cloud" = Some e
      ∧ count e = 2
      ∧ sentence e = ["one"; "two"].
Proof.
  split; [reflexivity|].
  destruct (accumulate_merges_casings ascii_lower "Cloud" "cloud" "a.txt" "one" "b.txt" "two"
              (__init__ "en" 3 3) eq_refl) as (_ & _ & (e & Hlook & Hcount & Hsen) & _).
  exists e. split_and!; [exact Hlook | exact Hcount | exact Hsen].
Defined.

Lemma filter_rows_keeps_iff_witness :
  keyword_list_filtered demo = ∅
  ∧ keyword_list_filtered (_filter_rows demo) !! "cloud" = Some demo_cloud
  ∧ keyword_list_filtered (_filter_rows demo) !! "rain" = None
  ∧ keyword_list_filtered (_filter_rows demo) !! "year" ≠ Some demo_year.
Proof.
  assert (Hempty : keyword_list_filtered demo = ∅) by reflexivity.
  split_and!; [exact Hempty | | |].
  - apply (filter_rows_keeps_iff demo "cloud" demo_cloud Hempty).
    + vm_compute; reflexivity.
    + refine (bool_decide_unpack _ _). vm_compute. exact I.
    + reflexivity.
  - apply (filter_rows_keeps_iff demo "rain" demo_rain Hempty).
    + vm_compute; reflexivity.
    + reflexivity.
  - intros Hyear.
    apply (proj1 (filter_rows_keeps_iff demo "year" demo_year Hempty)) in Hyear
      as (_ & Hbl & _).
    apply Hbl. refine (bool_decide_unpack _ _). vm_compute. exact I.
Defined.

Lemma filter_rows_size_antitone_witness :
  keyword_list_filtered demo = ∅
  ∧ 1 <= 2
  ∧ (size (keyword_list_filtered (_filter_rows (set_keyword_limit_in_result 2 demo)))
     ≤ size (keyword_list_filtered (_filter_rows (set_keyword_limit_in_result 1 demo))))%nat.
Proof.
  split_and!; [reflexivity | lia |].
  apply (filter_rows_size_antitone demo 1 2); [reflexivity | lia].
Defined.

(** ** File discovery *)

Module GlobFacts.
Import Str StrFacts Glob.








End GlobFacts.

(** C8, where the program departs from it: the pattern of [main] is [*txt],
    so a name that ends in [txt] without the dot of an extension is taken
    too. *)
Theorem glob_takes_name_without_extension :
  Glob.glob "docs" ["notestxt"; "a.txt"] = ["docs/notestxt"; "docs/a.txt"]
  ∧ Str.endswith "notestxt" ".txt" = false
  ∧ Glob.fnmatch "notestxt" "*.txt" = false.
Proof. split_and!; reflexivity. Qed.

(** ** The run on a folder without matching files *)

(** C6, where the program departs from it: when no name of the folder
    matches, nothing is accumulated, the frame built from the empty filtered
    table has no ['count'] column, and [sort_values] raises [KeyError]: the
    run ends in an exception and no table is written. *)
Theorem main_without_files_raises
    (lower : string → string) (score : Type)
    (extract_keywords : string → Z → Z → string → list (string * score))
    (sent_tokenize : string → list string) (read_text : string → option string)
    (folder : string) (names : list string) (lang : string)
    (num_of_keywords keyword_limit_in_final_table : Z) :
  Glob.glob folder names = [] →
  main lower score extract_keywords sent_tokenize read_text
    folder names lang num_of_keywords keyword_limit_in_final_table
  = Raise (KeyError "count").
Proof. intros Hglob. unfold main. rewrite Hglob. reflexivity. Qed.

Lemma main_without_files_raises_witness :
  Glob.glob "docs" ["notes.md"; "data.csv"] = []
  ∧ main ascii_lower unit toy_extract_keywords toy_sent_tokenize toy_read_text
      "docs" ["notes.md"; "data.csv"] "en" 3 3
    = Raise (KeyError "count").
Proof.
  split; [reflexivity|].
  apply (main_without_files_raises ascii_lower unit toy_extract_keywords
           toy_sent_tokenize toy_read_text "docs" ["notes.md"; "data.csv"] "en" 3 3).
  reflexivity.
Defined.

(** * Further properties of the program *)

(** ** The table after a sequence of accumulate calls *)

Section AggregatorTrace.

Variable lower : string → string.

Lemma accumulate_lookup term src sen self k :
  keyword_list (accumulate lower term src sen self) !! k
  = if decide (lower term = k)
    then Some (match keyword_list self !! k with
               | Some e => bump src sen e
               | None => fresh src sen
               end)
    else keyword_list self !! k.
Proof.
  unfold accumulate. rewrite keyword_list_add_kw.
  case_decide as Hk.
  - subst k. by rewrite lookup_insert_eq.
  - by rewrite lookup_insert_ne.
Qed.

Lemma calls_to_cons k call calls :
  calls_to lower k (call :: calls)
  = if decide (lower call.1.1 = k)
    then call :: calls_to lower k calls
    else calls_to lower k calls.
Proof.
  unfold calls_to. simpl. case_decide as Hk.
  - by rewrite (proj2 (String.eqb_eq _ _) Hk).
  - by rewrite (proj2 (String.eqb_neq _ _) Hk).
Qed.

(** The keys of the table after the calls: the keys it had and the
    lowercased terms of the calls. *)
Theorem accumulate_all_keys calls self :
  dom (keyword_list (accumulate_all lower calls self))
  = dom (keyword_list self) ∪ list_to_set ((λ call, lower call.1.1) <$> calls).
Proof.
  revert self. induction calls as [|call calls IH]; intros self.
  - simpl. by rewrite (right_id_L ∅ (∪)).
  - rewrite accumulate_all_cons, IH. unfold accumulate.
    rewrite keyword_list_add_kw, dom_insert_L. simpl.
    rewrite (comm_L (∪) {[lower call.1.1]}). by rewrite (assoc_L (∪)).
Qed.

(** The entry of a key after the calls: its count has grown by the number of
    calls that went to the key, and their sentences stand behind the
    sentences it had, in the order of the calls (a key without entry counts
    as count 0 and no sentences). *)
Theorem accumulate_all_entry calls self k :
  from_option count 0 (keyword_list (accumulate_all lower calls self) !! k)
  = from_option count 0 (keyword_list self !! k)
    + Z.of_nat (length (calls_to lower k calls))
  ∧ from_option sentence [] (keyword_list (accumulate_all lower calls self) !! k)
    = from_option sentence [] (keyword_list self !! k)
      ++ ((λ call, call.2) <$> calls_to lower k calls).
Proof.
  revert self. induction calls as [|call calls IH]; intros self.
  - simpl. split; [lia | by rewrite app_nil_r].
  - rewrite accumulate_all_cons. destruct (IH (accumulate lower call.1.1 call.1.2 call.2 self))
      as [IHc IHs].
    rewrite IHc, IHs, accumulate_lookup, calls_to_cons. clear IH IHc IHs.
    case_decide as Hk; [|done].
    destruct (keyword_list self !! k) as [e|]; simpl.
    + split; [lia | by rewrite <- app_assoc].
    + split; [lia | done].
Qed.

(** The sources of a key after the calls: the sources it had and the sources
    of the calls that went to the key. *)
Theorem accumulate_all_sources calls self k s :
  s ∈ from_option source [] (keyword_list (accumulate_all lower calls self) !! k)
  ↔ s ∈ from_option source [] (keyword_list self !! k)
    ∨ ∃ term sen, (term, s, sen) ∈ calls ∧ lower term = k.
Proof.
  revert self. induction calls as [|call calls IH]; intros self.
  - simpl. split; [by left|]. intros [?|(term & sen & Hin & _)]; [done|].
    by apply elem_of_nil in Hin.
  - rewrite accumulate_all_cons, IH, accumulate_lookup. clear IH.
    destruct call as [[term src] sen]. simpl.
    assert (Hstep :
      s ∈ from_option source []
            (if decide (lower term = k)
             then Some (match keyword_list self !! k with
                        | Some e => bump src sen e
                        | None => fresh src sen
                        end)
             else keyword_list self !! k)
      ↔ s ∈ from_option source [] (keyword_list self !! k) ∨ (lower term = k ∧ src = s)).
    { case_decide as Hk; [|split; [by left | by intros [?|[? _]]]].
      destruct (keyword_list self !! k) as [e|]; simpl.
      - case_bool_decide as Hin.
        + split; [by left|]. intros [?|[_ <-]]; done.
        + rewrite elem_of_app, list_elem_of_singleton. split.
          * intros [? | ->]; [by left | by right].
          * intros [?|[_ <-]]; [by left | by right].
      - rewrite list_elem_of_singleton. split; [intros ->; by right|].
        intros [Hnil|[_ <-]]; [by apply elem_of_nil in Hnil | done]. }
    rewrite Hstep. split.
    + intros [[?|[Hk <-]]|(term' & sen' & Hin & Hk)].
      * by left.
      * right. exists term, sen. split; [apply list_elem_of_here | done].
      * right. exists term', sen'. split; [by apply list_elem_of_further | done].
    + intros [?|(term' & sen' & Hin & Hk)]; [by left; left|].
      apply elem_of_cons in Hin as [[= -> -> ->]|Hin].
      * left. right. done.
      * right. exists term', sen'. done.
Qed.

(** An entry of the table is never removed and never shrinks: after the
    calls the key is still there, its count is no smaller, and its sources
    and sentences begin with the ones it had. *)
Theorem accumulate_all_keeps_entries calls self k e :
  keyword_list self !! k = Some e →
  ∃ e', keyword_list (accumulate_all lower calls self) !! k = Some e'
    ∧ count e <= count e'
    ∧ source e `prefix_of` source e'
    ∧ sentence e `prefix_of` sentence e'.
Proof.
  revert self e. induction calls as [|call calls IH]; intros self e Hk.
  - exists e. done.
  - rewrite accumulate_all_cons.
    pose proof (accumulate_lookup call.1.1 call.1.2 call.2 self k) as Hstep.
    rewrite Hk in Hstep. case_decide as Heq.
    + destruct (IH _ _ Hstep) as (e' & Hlook & Hc & Hsrc & Hsen).
      exists e'. split_and!; [done | simpl in Hc; lia | |].
      * etrans; [|exact Hsrc]. simpl. case_bool_decide; [done|].
        by apply prefix_app_r.
      * etrans; [|exact Hsen]. simpl. by apply prefix_app_r.
    + by apply IH.
Qed.

(** From the empty table, every entry has a count of at least one and at
    least one source, and no more sources than sentences. *)
Theorem entries_are_grounded calls self k e :
  keyword_list self = ∅ →
  keyword_list (accumulate_all lower calls self) !! k = Some e →
  1 <= count e
  ∧ source e ≠ []
  ∧ (length (source e) ≤ length (sentence e))%nat.
Proof.
  intros Hempty Hk.
  refine (accumulate_all_preserves lower
            (λ e, 1 <= count e ∧ source e ≠ []
                  ∧ (length (source e) ≤ length (sentence e))%nat)
            calls self _ _ _ k e Hk).
  - intros src sen. simpl. split_and!; [lia | done | lia].
  - intros src sen e0 (Hc & Hs & Hl). simpl. split_and!.
    + lia.
    + case_bool_decide; [done|]. by destruct (source e0).
    + rewrite length_app. simpl. case_bool_decide; [lia|].
      rewrite length_app. simpl. lia.
  - rewrite Hempty. apply map_Forall_empty.
Qed.

End AggregatorTrace.

(** ** The filter on any object *)

(** [_filter_rows] on any object: the filtered table afterwards holds the
    entries of the table that pass both tests, and under every other key
    what it held before. *)
Theorem filter_rows_adds_passing self :
  keyword_list_filtered (_filter_rows self)
  = filter (λ kv, (kv.1 ∉ blacklist self) ∧ (count kv.2 >= keyword_limit_in_result self))
      (keyword_list self)
    ∪ keyword_list_filtered self.
Proof.
  apply map_eq. intros k. unfold _filter_rows. simpl.
  rewrite filter_fold_lookup, lookup_union, map_lookup_filter.
  destruct (keyword_list self !! k) as [v|]; simpl.
  - repeat case_bool_decide.
    + rewrite option_guard_False by (intros [? ?]; done).
      by rewrite (left_id_L None _).
    + rewrite option_guard_True by done.
      by destruct (keyword_list_filtered self !! k).
    + rewrite option_guard_False by (intros [? ?]; done).
      by rewrite (left_id_L None _).
  - by rewrite (left_id_L None _).
Qed.

(** Running [_filter_rows] a second time changes nothing. *)
Theorem filter_rows_idempotent self :
  _filter_rows (_filter_rows self) = _filter_rows self.
Proof.
  unfold _filter_rows at 1 3. unfold set_keyword_list_filtered. simpl.
  f_equal. apply map_eq. intros k.
  rewrite !filter_fold_lookup.
  destruct (keyword_list self !! k) as [v|]; [|done].
  by repeat case_bool_decide.
Qed.

(** ** Reading the files and running the loops *)

Section PipelineFacts.

Variable lower : string → string.
Variable score : Type.
Variable extract_keywords : string → Z → Z → string → list (string * score).
Variable sent_tokenize : string → list string.
Variable read_text : string → option string.

Local Abbreviation make_sentence_list := (_make_sentence_list sent_tokenize read_text).
Local Abbreviation rows_of := (rows_of_file sent_tokenize read_text).
Local Abbreviation calls_of := (calls_of_rows score extract_keywords).
Local Abbreviation run_rows :=
  (foldl (process_row lower score extract_keywords)).

Lemma make_sentence_list_cons file_name file_list :
  make_sentence_list (file_name :: file_list)
  = match read_text file_name with
    | Some text =>
        match make_sentence_list file_list with
        | Ok sentence_list => Ok (rows_of file_name ++ sentence_list)
        | Raise e => Raise e
        end
    | None => Raise (OSError file_name)
    end.
Proof.
  simpl. unfold _get_sentences, rows_of_file.
  by destruct (read_text file_name).
Qed.

Lemma make_sentence_list_readable file_list :
  Forall (λ f, is_Some (read_text f)) file_list →
  make_sentence_list file_list = Ok (flat_map rows_of file_list).
Proof.
  induction 1 as [|f fl [text Hf] _ IH]; [done|].
  by rewrite make_sentence_list_cons, Hf, IH.
Qed.

Lemma make_sentence_list_unreadable pre f post :
  Forall (λ g, is_Some (read_text g)) pre →
  read_text f = None →
  make_sentence_list (pre ++ f :: post) = Raise (OSError f).
Proof.
  intros Hpre Hf. induction Hpre as [|g pre [text Hg] _ IH].
  - cbn [app]. by rewrite make_sentence_list_cons, Hf.
  - cbn [app]. by rewrite make_sentence_list_cons, Hg, IH.
Qed.

Lemma make_sentence_list_inv file_list rows :
  make_sentence_list file_list = Ok rows →
  Forall (λ f, is_Some (read_text f)) file_list
  ∧ rows = flat_map rows_of file_list.
Proof.
  revert rows. induction file_list as [|f fl IH]; intros rows.
  - intros [= <-]. done.
  - rewrite make_sentence_list_cons.
    destruct (read_text f) as [text|] eqn:Hf; [|done].
    destruct (make_sentence_list fl) as [sentence_list|e]; [|done].
    intros [= <-]. destruct (IH sentence_list eq_refl) as [Hall ->].
    split; [|done]. constructor; [by rewrite Hf|done].
Qed.

(** [_make_sentence_list] returns a list exactly when every file can be
    read, and the list then holds the sentences of the files, file after
    file in the order of [file_list], each with the name of its file. *)
Theorem make_sentence_list_ok file_list rows :
  _make_sentence_list sent_tokenize read_text file_list = Ok rows
  ↔ Forall (λ f, is_Some (read_text f)) file_list
    ∧ rows = flat_map (rows_of_file sent_tokenize read_text) file_list.
Proof.
  split; [apply make_sentence_list_inv|].
  intros [Hall ->]. by apply make_sentence_list_readable.
Qed.

(** [_make_sentence_list] raises exactly when a file cannot be read, and the
    exception is the one of the first such file of [file_list]: nothing of
    the files before it is returned. *)
Theorem make_sentence_list_raises file_list e :
  _make_sentence_list sent_tokenize read_text file_list = Raise e
  ↔ ∃ pre f post,
      file_list = pre ++ f :: post
      ∧ Forall (λ g, is_Some (read_text g)) pre
      ∧ read_text f = None
      ∧ e = OSError f.
Proof.
  split.
  - revert e. induction file_list as [|f fl IH]; intros e; [done|].
    rewrite make_sentence_list_cons.
    destruct (read_text f) as [text|] eqn:Hf.
    + destruct (make_sentence_list fl) as [sentence_list|e'] eqn:Hfl; [done|].
      intros [= <-]. destruct (IH e' eq_refl) as (pre & g & post & -> & Hpre & Hg & ->).
      exists (f :: pre), g, post. split_and!; try done.
      constructor; [by rewrite Hf|done].
    + intros [= <-]. exists [], f, fl. done.
  - intros (pre & f & post & -> & Hpre & Hf & ->).
    by apply make_sentence_list_unreadable.
Qed.

Lemma add_kw_config word src sen self :
  lang (_add_kw_to_dict word src sen self) = lang self
  ∧ max_ngram_size (_add_kw_to_dict word src sen self) = max_ngram_size self
  ∧ num_of_keywords (_add_kw_to_dict word src sen self) = num_of_keywords self
  ∧ keyword_limit_in_result (_add_kw_to_dict word src sen self) = keyword_limit_in_result self
  ∧ blacklist (_add_kw_to_dict word src sen self) = blacklist self
  ∧ keyword_list_filtered (_add_kw_to_dict word src sen self) = keyword_list_filtered self.
Proof. unfold _add_kw_to_dict. by destruct (keyword_list self !! word). Qed.

Lemma accumulate_all_config calls self :
  lang (accumulate_all lower calls self) = lang self
  ∧ max_ngram_size (accumulate_all lower calls self) = max_ngram_size self
  ∧ num_of_keywords (accumulate_all lower calls self) = num_of_keywords self
  ∧ keyword_limit_in_result (accumulate_all lower calls self) = keyword_limit_in_result self
  ∧ blacklist (accumulate_all lower calls self) = blacklist self
  ∧ keyword_list_filtered (accumulate_all lower calls self) = keyword_list_filtered self.
Proof.
  revert self. induction calls as [|call calls IH]; intros self; [done|].
  rewrite accumulate_all_cons.
  destruct (IH (accumulate lower call.1.1 call.1.2 call.2 self))
    as (-> & -> & -> & -> & -> & ->).
  apply add_kw_config.
Qed.

Lemma accumulate_all_app calls1 calls2 self :
  accumulate_all lower (calls1 ++ calls2) self
  = accumulate_all lower calls2 (accumulate_all lower calls1 self).
Proof. apply foldl_app. Qed.

Lemma calls_of_config self self' rows :
  lang self' = lang self →
  max_ngram_size self' = max_ngram_size self →
  num_of_keywords self' = num_of_keywords self →
  calls_of self' rows = calls_of self rows.
Proof.
  intros Hl Hm Hn. unfold calls_of_rows, _extract_keywords.
  by rewrite Hl, Hm, Hn.
Qed.

Lemma process_row_calls self row :
  process_row lower score extract_keywords self row
  = accumulate_all lower (calls_of self [row]) self.
Proof.
  unfold process_row, calls_of_rows, accumulate_all. simpl.
  rewrite app_nil_r.
  generalize (_extract_keywords score extract_keywords self (row_sentence row)).
  intros words. revert self. induction words as [|word words IH]; intros self; [done|].
  simpl. apply IH.
Qed.

Lemma calls_of_cons self row rows :
  calls_of self (row :: rows) = calls_of self [row] ++ calls_of self rows.
Proof. unfold calls_of_rows. simpl. by rewrite app_nil_r. Qed.

Lemma run_rows_calls rows self :
  run_rows self rows = accumulate_all lower (calls_of self rows) self.
Proof.
  revert self. induction rows as [|row rows IH]; intros self; [done|].
  simpl foldl. rewrite IH, process_row_calls, (calls_of_cons self row rows), accumulate_all_app.
  f_equal.
  destruct (accumulate_all_config (calls_of self [row]) self) as (Hl & Hm & Hn & _).
  by apply calls_of_config.
Qed.

Lemma process_file_list_inv file_list self WE :
  process_file_list lower score extract_keywords sent_tokenize read_text file_list self
  = Ok WE →
  Forall (λ f, is_Some (read_text f)) file_list
  ∧ WE = _filter_rows
           (accumulate_all lower (calls_of self (flat_map rows_of file_list)) self).
Proof.
  unfold process_file_list.
  destruct (make_sentence_list file_list) as [rows|e] eqn:Hrows; [|done].
  apply make_sentence_list_inv in Hrows as [Hall ->].
  intros [= <-]. by rewrite run_rows_calls.
Qed.

(** Where the calls of a run come from: the source of a call is a file of
    the list, and its sentence is a sentence of that file. *)
Lemma calls_of_origin self file_list call :
  call ∈ calls_of self (flat_map rows_of file_list) →
  call.1.2 ∈ file_list
  ∧ ∃ text, read_text call.1.2 = Some text ∧ call.2 ∈ sent_tokenize text.
Proof.
  unfold calls_of_rows. rewrite !list_elem_of_In, in_flat_map.
  intros (row & Hrow & Hcall).
  apply in_flat_map in Hrow as (f & Hf & Hrow).
  apply in_map_iff in Hcall as (word & <- & _). simpl.
  unfold rows_of_file in Hrow. destruct (read_text f) as [text|] eqn:Htext; [|done].
  apply in_map_iff in Hrow as (sen & <- & Hsen). simpl.
  split; [done|]. exists text. by rewrite <- list_elem_of_In in Hsen.
Qed.

Lemma accumulate_all_preserves_from (P : KeywordEntry → Prop) calls self :
  Forall (λ call, P (fresh call.1.2 call.2)
                  ∧ ∀ e, P e → P (bump call.1.2 call.2 e)) calls →
  map_Forall (λ _, P) (keyword_list self) →
  map_Forall (λ _, P) (keyword_list (accumulate_all lower calls self)).
Proof.
  intros Hcalls. revert self.
  induction Hcalls as [|call calls [Hfresh Hbump] _ IH]; intros self Hall; [done|].
  rewrite accumulate_all_cons. apply IH. unfold accumulate.
  by apply add_kw_preserves.
Qed.

(** [process_file_list], when every file can be read, makes the accumulate
    calls of the sentences of the files, in the order of the files, of the
    sentences within a file and of the keywords within a sentence, and then
    filters. *)
Theorem process_file_list_trace file_list self :
  Forall (λ f, is_Some (read_text f)) file_list →
  process_file_list lower score extract_keywords sent_tokenize read_text file_list self
  = Ok (_filter_rows
          (accumulate_all lower
             (calls_of_rows score extract_keywords self
                (flat_map (rows_of_file sent_tokenize read_text) file_list))
             self)).
Proof.
  intros Hall. unfold process_file_list.
  rewrite make_sentence_list_readable by done. simpl.
  by rewrite run_rows_calls.
Qed.

(** After [process_file_list] on an object with an empty table, every source
    of every entry is a file of the list, and every sentence of every entry
    is a sentence of one of these files. *)
Theorem process_file_list_provenance file_list self WE k e :
  keyword_list self = ∅ →
  process_file_list lower score extract_keywords sent_tokenize read_text file_list self
  = Ok WE →
  keyword_list WE !! k = Some e →
  (∀ s, s ∈ source e → s ∈ file_list)
  ∧ (∀ x, x ∈ sentence e →
       ∃ f text, f ∈ file_list ∧ read_text f = Some text ∧ x ∈ sent_tokenize text).
Proof.
  intros Hempty Hrun Hk. apply process_file_list_inv in Hrun as [_ ->].
  simpl in Hk.
  refine (accumulate_all_preserves_from
            (λ e, (∀ s, s ∈ source e → s ∈ file_list)
                  ∧ (∀ x, x ∈ sentence e →
                       ∃ f text, f ∈ file_list ∧ read_text f = Some text
                                 ∧ x ∈ sent_tokenize text))
            _ self _ _ k e Hk).
  - apply Forall_forall. intros call Hcall.
    apply calls_of_origin in Hcall as (Hsrc & text & Htext & Hsen).
    split.
    + simpl. split.
      * by intros s ->%list_elem_of_singleton.
      * intros x ->%list_elem_of_singleton. by exists call.1.2, text.
    + intros e0 [Hs Hx]. simpl. split.
      * intros s. case_bool_decide; [apply Hs|].
        rewrite elem_of_app, list_elem_of_singleton. intros [?| ->]; [by apply Hs|done].
      * intros x. rewrite elem_of_app, list_elem_of_singleton.
        intros [?| ->]; [by apply Hx|]. by exists call.1.2, text.
  - rewrite Hempty. apply map_Forall_empty.
Qed.

(** After [process_file_list] on a fresh object, every row of the filtered
    table is an entry of the table whose term is not in the blacklist, whose
    count is at least the threshold and equals the number of its sentences,
    and whose sources are distinct. *)
Theorem process_file_list_filtered_rows file_list self WE k v :
  keyword_list self = ∅ →
  keyword_list_filtered self = ∅ →
  process_file_list lower score extract_keywords sent_tokenize read_text file_list self
  = Ok WE →
  keyword_list_filtered WE !! k = Some v →
  keyword_list WE !! k = Some v
  ∧ (k ∉ blacklist self)
  ∧ (count v >= keyword_limit_in_result self)
  ∧ count v = Z.of_nat (length (sentence v))
  ∧ NoDup (source v).
Proof.
  intros Hempty Hfiltered Hrun Hk. apply process_file_list_inv in Hrun as [_ ->].
  set (calls := calls_of self (flat_map rows_of file_list)) in *.
  destruct (accumulate_all_config calls self) as (_ & _ & _ & Hlimit & Hbl & Hkf).
  apply filter_rows_lookup in Hk as (Hlook & Hnot & Hge); [|by rewrite Hkf].
  rewrite Hbl in Hnot. rewrite Hlimit in Hge.
  split_and!; [done | done | done | |].
  - refine (accumulate_all_preserves lower
              (λ e, count e = Z.of_nat (length (sentence e))) calls self _ _ _ k v Hlook).
    + done.
    + intros src sen e0. apply bump_count_length.
    + rewrite Hempty. apply map_Forall_empty.
  - refine (accumulate_all_preserves lower (λ e, NoDup (source e)) calls self _ _ _ k v Hlook).
    + intros src sen. apply NoDup_singleton.
    + intros src sen e0. apply bump_source_NoDup.
    + rewrite Hempty. apply map_Forall_empty.
Qed.

(** ** The outcomes of [main] *)

(** [main] raises [KeyError] whenever the filtered table is empty: also when
    files were read but no term that is not in the blacklist reaches the
    threshold. *)
Theorem main_raises_without_rows folder names lg n limit WE :
  process_file_list lower score extract_keywords sent_tokenize read_text
    (Glob.glob folder names) (__init__ lg n limit) = Ok WE →
  keyword_list_filtered WE = ∅ →
  main lower score extract_keywords sent_tokenize read_text folder names lg n limit
  = Raise (KeyError "count").
Proof.
  intros Hrun Hempty. unfold main. rewrite Hrun. simpl.
  unfold Pandas.DataFrame_transpose. by rewrite Hempty.
Qed.

(** [main], when the filtered table is not empty, hands to [to_csv] a table
    with the columns [word], [count], [source], [sentence] whose rows are
    the entries of the filtered table, each once, in the order of falling
    counts. *)
Theorem main_writes_sorted_table folder names lg n limit WE :
  process_file_list lower score extract_keywords sent_tokenize read_text
    (Glob.glob folder names) (__init__ lg n limit) = Ok WE →
  keyword_list_filtered WE ≠ ∅ →
  ∃ df,
    main lower score extract_keywords sent_tokenize read_text folder names lg n limit
    = Ok df
    ∧ Pandas.columns df = ["word"; "count"; "source"; "sentence"]
    ∧ Pandas.rows df ≡ₚ map_to_list (keyword_list_filtered WE)
    ∧ Sorted Pandas.count_desc (Pandas.rows df).
Proof.
  intros Hrun Hne. unfold main. rewrite Hrun. simpl.
  unfold Pandas.DataFrame_transpose, Pandas.sort_values_count_desc. simpl.
  rewrite (bool_decide_eq_false_2 _ Hne). simpl.
  eexists. split; [reflexivity|]. simpl. split_and!.
  - done.
  - apply merge_sort_Permutation.
  - assert (Htotal : Total Pandas.count_desc).
    { intros r1 r2. unfold Pandas.count_desc. lia. }
    apply (Sorted_merge_sort Pandas.count_desc).
Qed.

(** [main] stops at the first file of the list that cannot be read: it
    raises the exception of that file and hands no table to [to_csv]. *)
Theorem main_raises_on_unreadable_file folder names lg n limit pre f post :
  Glob.glob folder names = pre ++ f :: post →
  Forall (λ g, is_Some (read_text g)) pre →
  read_text f = None →
  main lower score extract_keywords sent_tokenize read_text folder names lg n limit
  = Raise (OSError f).
Proof.
  intros Hglob Hpre Hf. unfold main, process_file_list.
  by rewrite Hglob, make_sentence_list_unreadable.
Qed.

End PipelineFacts.

(** ** Repeated passes of the normaliser *)

Module CleanPasses.
Import Str StrFacts CleanFacts.

Local Abbreviation rep := (replace_from "al Qaeda" "alqaeda" O).

Lemma contains_app_l p q text :
  contains p text = false → contains (p +:+ q) text = false.
Proof.
  induction text as [|c text IH].
  - rewrite !contains_nil, startswith_app. by intros ->.
  - rewrite !contains_cons, !orb_false_iff, startswith_app.
    intros [-> ?]. split; [done | by apply IH].
Qed.

(** The rewritten text never continues a replacement into two overlapping
    names. *)
Lemma rep_tail_overlap y : startswith (rep y) "l Qaedal Qaeda" = false.
Proof.
  destruct (startswith (rep y) "l Qaedal Qaeda") eqn:H; [|done].
  apply rep_head in H as (s1 & -> & [[? _] | [_ H]]); [done|].
  apply rep_head in H as (s2 & -> & [[? _] | [_ H]]); [done|].
  apply rep_head in H as (s3 & -> & [[? _] | [_ H]]); [done|].
  apply rep_head in H as (s4 & -> & [[_ H] | [_ H]]); [done|].
  apply rep_head in H as (s5 & -> & [[? _] | [_ H]]); [done|].
  apply rep_head in H as (s6 & -> & [[? _] | [_ H]]); [done|].
  by rewrite rep_not_head in H.
Qed.

Lemma contains_overlap_after t :
  contains "al Qaedal Qaeda" ("alqaeda" +:+ t)
  = startswith t "l Qaedal Qaeda" || contains "al Qaedal Qaeda" t.
Proof. reflexivity. Qed.

(** After one pass no two names overlap. *)
Lemma rep_no_overlap n :
  ∀ x, (String.length x ≤ n)%nat → contains "al Qaedal Qaeda" (rep x) = false.
Proof.
  induction n as [|n IH]; intros [|c s] Hlen; try done.
  { simpl in Hlen. lia. }
  simpl in Hlen. rewrite rep_cons.
  destruct (startswith (String c s) "al Qaeda") eqn:E.
  - rewrite contains_overlap_after, rep_tail_overlap. cbn [orb].
    apply IH. pose proof (drop_length 7 s). lia.
  - rewrite contains_cons, orb_false_iff. split; [|apply IH; lia].
    pose proof (rep_not_head (String c s)) as H. rewrite rep_cons, E in H.
    change "al Qaedal Qaeda" with ("al Qaeda" +:+ "l Qaeda").
    by rewrite startswith_app, H.
Qed.

Lemma startswith_length text pre :
  startswith text pre = true →
  String.length text
  = (String.length pre + String.length (drop (String.length pre) text))%nat.
Proof.
  revert text. induction pre as [|a pre IH]; intros [|b text]; try done.
  rewrite startswith_cons, andb_true_iff. intros [_ H].
  cbn [String.length drop]. by rewrite (IH text H) at 1.
Qed.

Lemma length_append (s1 s2 : string) :
  String.length (s1 +:+ s2) = (String.length s1 + String.length s2)%nat.
Proof. induction s1 as [|c s1 IH]; [done|]. simpl. by rewrite IH. Qed.

(** A pass never lengthens the text, and shortens it where the name
    occurs. *)
Lemma rep_length n :
  ∀ x, (String.length x ≤ n)%nat →
    (String.length (rep x) ≤ String.length x)%nat
    ∧ (contains "al Qaeda" x = true → (String.length (rep x) < String.length x)%nat).
Proof.
  induction n as [|n IH]; intros [|c s] Hlen; try done.
  { simpl in Hlen. lia. }
  simpl in Hlen. rewrite rep_cons, contains_cons.
  destruct (startswith (String c s) "al Qaeda") eqn:E.
  - apply startswith_length in E.
    change (drop _ (String c s)) with (drop 7 s) in E. cbn [String.length] in E.
    rewrite length_append. cbn [String.length].
    destruct (IH (drop 7 s)) as [Hle _]; [pose proof (drop_length 7 s); lia|].
    split; [lia | intros _; lia].
  - cbn [String.length orb]. destruct (IH s) as [Hle Hlt]; [lia|].
    split; [lia | intros Hc; specialize (Hlt Hc); lia].
Qed.

End CleanPasses.

(** Unless two occurrences of ['al Qaeda'] overlap in the text, the name does
    not occur in the text [_clean_text] returns. *)
Theorem clean_text_removes_name x :
  Str.contains "al Qaedal Qaeda" x = false →
  Str.contains "al Qaeda" (_clean_text x) = false.
Proof.
  intros H. unfold _clean_text. destruct (Str.contains "al Qaeda" x) eqn:E; [|done].
  by apply (CleanFacts.rep_clean (String.length x)).
Qed.

(** A second pass of [_clean_text] always reaches a text that further passes
    leave as it is. *)
Theorem clean_text_second_pass_stable x :
  _clean_text (_clean_text (_clean_text x)) = _clean_text (_clean_text x).
Proof.
  assert (Hone : Str.contains "al Qaedal Qaeda" (_clean_text x) = false).
  { unfold _clean_text. destruct (Str.contains "al Qaeda" x) eqn:E.
    - by apply (CleanPasses.rep_no_overlap (String.length x)).
    - by apply (CleanPasses.contains_app_l "al Qaeda" "l Qaeda"). }
  assert (Htwo : Str.contains "al Qaeda" (_clean_text (_clean_text x)) = false).
  { unfold _clean_text at 1.
    destruct (Str.contains "al Qaeda" (_clean_text x)) eqn:E; [|done].
    by apply (CleanFacts.rep_clean (String.length (_clean_text x))). }
  unfold _clean_text at 1. by rewrite Htwo.
Qed.

(** [_clean_text] never lengthens a text, and shortens every text in which
    ['al Qaeda'] occurs. *)
Theorem clean_text_length x :
  (String.length (_clean_text x) ≤ String.length x)%nat
  ∧ (Str.contains "al Qaeda" x = true →
     (String.length (_clean_text x) < String.length x)%nat).
Proof.
  unfold _clean_text. destruct (Str.contains "al Qaeda" x) eqn:E.
  - destruct (CleanPasses.rep_length (String.length x) x) as [Hle Hlt]; [lia|].
    split; [exact Hle | intros _; by apply Hlt].
  - split; [lia | done].
Qed.

(** ** The further properties on the example runs *)

Lemma accumulate_all_keeps_entries_witness :
  keyword_list demo !! "cloud" = Some demo_cloud
  ∧ ∃ e', keyword_list (accumulate_all ascii_lower [("CLOUD", "b.txt", "Clouds.")] demo)
            !! "cloud" = Some e'
      ∧ count demo_cloud <= count e'
      ∧ source demo_cloud `prefix_of` source e'
      ∧ sentence demo_cloud `prefix_of` sentence e'.
Proof.
  assert (Hcloud : keyword_list demo !! "cloud" = Some demo_cloud)
    by (vm_compute; reflexivity).
  split; [exact Hcloud|].
  apply (accumulate_all_keeps_entries ascii_lower [("CLOUD", "b.txt", "Clouds.")]
           demo "cloud" demo_cloud Hcloud).
Defined.

Lemma entries_are_grounded_witness :
  keyword_list (__init__ "en" 3 2) = ∅
  ∧ keyword_list (accumulate_all ascii_lower demo_calls (__init__ "en" 3 2)) !! "rain"
    = Some demo_rain
  ∧ 1 <= count demo_rain
  ∧ source demo_rain ≠ []
  ∧ (length (source demo_rain) ≤ length (sentence demo_rain))%nat.
Proof.
  assert (Hrain : keyword_list (accumulate_all ascii_lower demo_calls (__init__ "en" 3 2))
                    !! "rain" = Some demo_rain) by (vm_compute; reflexivity).
  split; [reflexivity|]. split; [exact Hrain|].
  apply (entries_are_grounded ascii_lower demo_calls (__init__ "en" 3 2) "rain");
    [reflexivity | exact Hrain].
Defined.

Lemma process_file_list_trace_witness :
  Forall (λ f, is_Some (toy_read_text f)) ["docs/a.txt"]
  ∧ process_file_list ascii_lower unit toy_extract_keywords toy_sent_tokenize toy_read_text
      ["docs/a.txt"] (__init__ "en" 3 2)
    = Ok (toy_run 2).
Proof.
  assert (Hread : Forall (λ f, is_Some (toy_read_text f)) ["docs/a.txt"]).
  { refine (bool_decide_unpack _ _). vm_compute. exact I. }
  split; [exact Hread|].
  exact (process_file_list_trace ascii_lower unit toy_extract_keywords toy_sent_tokenize
           toy_read_text ["docs/a.txt"] (__init__ "en" 3 2) Hread).
Defined.

Lemma process_file_list_provenance_witness :
  keyword_list (__init__ "en" 3 2) = ∅
  ∧ process_file_list ascii_lower unit toy_extract_keywords toy_sent_tokenize toy_read_text
      ["docs/a.txt"] (__init__ "en" 3 2) = Ok (toy_run 2)
  ∧ keyword_list (toy_run 2) !! "cloud" = Some toy_cloud
  ∧ (∀ s, s ∈ source toy_cloud → s ∈ ["docs/a.txt"])
  ∧ (∀ x, x ∈ sentence toy_cloud →
       ∃ f text, f ∈ ["docs/a.txt"] ∧ toy_read_text f = Some text
                 ∧ x ∈ toy_sent_tokenize text).
Proof.
  assert (Hrun : process_file_list ascii_lower unit toy_extract_keywords toy_sent_tokenize
                   toy_read_text ["docs/a.txt"] (__init__ "en" 3 2) = Ok (toy_run 2))
    by (vm_compute; reflexivity).
  assert (Hcloud : keyword_list (toy_run 2) !! "cloud" = Some toy_cloud)
    by (vm_compute; reflexivity).
  split; [reflexivity|]. split; [exact Hrun|]. split; [exact Hcloud|].
  apply (process_file_list_provenance ascii_lower unit toy_extract_keywords
             toy_sent_tokenize toy_read_text ["docs/a.txt"] (__init__ "en" 3 2)
             (toy_run 2) "cloud" toy_cloud eq_refl Hrun Hcloud).
Defined.

Lemma process_file_list_filtered_rows_witness :
  keyword_list (__init__ "en" 3 2) = ∅
  ∧ keyword_list_filtered (__init__ "en" 3 2) = ∅
  ∧ process_file_list ascii_lower unit toy_extract_keywords toy_sent_tokenize toy_read_text
      ["docs/a.txt"] (__init__ "en" 3 2) = Ok (toy_run 2)
  ∧ keyword_list_filtered (toy_run 2) !! "cloud" = Some toy_cloud
  ∧ keyword_list (toy_run 2) !! "cloud" = Some toy_cloud
  ∧ ("cloud" ∉ blacklist (__init__ "en" 3 2))
  ∧ (count toy_cloud >= 2)
  ∧ count toy_cloud = Z.of_nat (length (sentence toy_cloud))
  ∧ NoDup (source toy_cloud).
Proof.
  assert (Hrun : process_file_list ascii_lower unit toy_extract_keywords toy_sent_tokenize
                   toy_read_text ["docs/a.txt"] (__init__ "en" 3 2) = Ok (toy_run 2))
    by (vm_compute; reflexivity).
  assert (Hcloud : keyword_list_filtered (toy_run 2) !! "cloud" = Some toy_cloud)
    by (vm_compute; reflexivity).
  split; [reflexivity|]. split; [reflexivity|]. split; [exact Hrun|].
  split; [exact Hcloud|].
  apply (process_file_list_filtered_rows ascii_lower unit toy_extract_keywords
             toy_sent_tokenize toy_read_text ["docs/a.txt"] (__init__ "en" 3 2)
             (toy_run 2) "cloud" toy_cloud eq_refl eq_refl Hrun Hcloud).
Defined.

Lemma main_raises_without_rows_witness :
  process_file_list ascii_lower unit toy_extract_keywords toy_sent_tokenize toy_read_text
    (Glob.glob "docs" ["a.txt"; "notes.md"]) (__init__ "en" 3 3) = Ok (toy_run 3)
  ∧ keyword_list_filtered (toy_run 3) = ∅
  ∧ main ascii_lower unit toy_extract_keywords toy_sent_tokenize toy_read_text
      "docs" ["a.txt"; "notes.md"] "en" 3 3
    = Raise (KeyError "count").
Proof.
  assert (Hrun : process_file_list ascii_lower unit toy_extract_keywords toy_sent_tokenize
                   toy_read_text (Glob.glob "docs" ["a.txt"; "notes.md"]) (__init__ "en" 3 3)
                 = Ok (toy_run 3)) by (vm_compute; reflexivity).
  assert (Hempty : keyword_list_filtered (toy_run 3) = ∅) by (vm_compute; reflexivity).
  split; [exact Hrun|]. split; [exact Hempty|].
  exact (main_raises_without_rows ascii_lower unit toy_extract_keywords toy_sent_tokenize
           toy_read_text "docs" ["a.txt"; "notes.md"] "en" 3 3 (toy_run 3) Hrun Hempty).
Defined.

Lemma main_writes_sorted_table_witness :
  process_file_list ascii_lower unit toy_extract_keywords toy_sent_tokenize toy_read_text
    (Glob.glob "docs" ["a.txt"; "notes.md"]) (__init__ "en" 3 2) = Ok (toy_run 2)
  ∧ keyword_list_filtered (toy_run 2) ≠ ∅
  ∧ ∃ df,
      main ascii_lower unit toy_extract_keywords toy_sent_tokenize toy_read_text
        "docs" ["a.txt"; "notes.md"] "en" 3 2 = Ok df
      ∧ Pandas.columns df = ["word"; "count"; "source"; "sentence"]
      ∧ Pandas.rows df ≡ₚ map_to_list (keyword_list_filtered (toy_run 2))
      ∧ Sorted Pandas.count_desc (Pandas.rows df).
Proof.
  assert (Hrun : process_file_list ascii_lower unit toy_extract_keywords toy_sent_tokenize
                   toy_read_text (Glob.glob "docs" ["a.txt"; "notes.md"]) (__init__ "en" 3 2)
                 = Ok (toy_run 2)) by (vm_compute; reflexivity).
  assert (Hne : keyword_list_filtered (toy_run 2) ≠ ∅).
  { refine (bool_decide_unpack _ _). vm_compute. exact I. }
  split; [exact Hrun|]. split; [exact Hne|].
  exact (main_writes_sorted_table ascii_lower unit toy_extract_keywords toy_sent_tokenize
           toy_read_text "docs" ["a.txt"; "notes.md"] "en" 3 2 (toy_run 2) Hrun Hne).
Defined.

Lemma main_raises_on_unreadable_file_witness :
  Glob.glob "docs" ["a.txt"; "b.txt"; "c.txt"] = ["docs/a.txt"] ++ "docs/b.txt" :: ["docs/c.txt"]
  ∧ Forall (λ g, is_Some (toy_read_text g)) ["docs/a.txt"]
  ∧ toy_read_text "docs/b.txt" = None
  ∧ main ascii_lower unit toy_extract_keywords toy_sent_tokenize toy_read_text
      "docs" ["a.txt"; "b.txt"; "c.txt"] "en" 3 2
    = Raise (OSError "docs/b.txt").
Proof.
  assert (Hread : Forall (λ f, is_Some (toy_read_text f)) ["docs/a.txt"]).
  { refine (bool_decide_unpack _ _). vm_compute. exact I. }
  split; [reflexivity|]. split; [exact Hread|]. split; [reflexivity|].
  exact (main_raises_on_unreadable_file ascii_lower unit toy_extract_keywords
           toy_sent_tokenize toy_read_text "docs" ["a.txt"; "b.txt"; "c.txt"] "en" 3 2
           ["docs/a.txt"] "docs/b.txt" ["docs/c.txt"] eq_refl Hread eq_refl).
Defined.

Lemma clean_text_removes_name_witness :
  Str.contains "al Qaedal Qaeda" "the al Qaeda cell; al Qaeda" = false
  ∧ Str.contains "al Qaeda" (_clean_text "the al Qaeda cell; al Qaeda") = false.
Proof.
  split; [reflexivity|].
  apply (clean_text_removes_name "the al Qaeda cell; al Qaeda"). reflexivity.
Defined.
